(** * The advice generator: Pinia store [userAdviceStore] and the [App.vue] view

    A shallow embedding of the store (state, the async action [fetchAdvice],
    the getters [getAdvice] and [getIdAdvice]) and of the component that
    uses it (the [mapState] computed properties, [newAdvice], [mounted] and
    the template), followed by the properties of the fetch-and-display
    flow.

    JavaScript runs one handler at a time: an async function runs up to
    its [await], and the rest of its body runs as one uninterrupted job
    when the awaited promise settles.  The embedding follows that: the
    action is given as the part up to the [await] and the part after it,
    and the event loop [handle] runs one of them per event. *)

From stdpp Require Import gmap strings list pretty.

Open Scope Z_scope.
Open Scope string_scope.

(** ** JavaScript values *)

Module Js.

(** [Number.MAX_SAFE_INTEGER], 2^53 - 1. *)
Definition max_safe_integer : Z := 9007199254740991.

(** The numbers of the model are the safe integers, those from
    [-max_safe_integer] to [max_safe_integer]: the endpoint's [slip.id]
    is one, nothing in the program computes with numbers, and these are
    the numbers whose string form is their decimal numeral. *)
Record safe_int : Type := SafeInt {
  int_val : Z;
  int_safe : Is_true (Z.abs int_val <=? max_safe_integer)%Z
}.

(** The values a JSON response body is made of, plus [undefined] (what a
    read of a missing property gives). *)
#[warnings="-register-all"] Inductive value : Type :=
  | VUndefined
  | VNull
  | VBool (b : bool)
  | VNum (n : safe_int)
  | VStr (s : string)
  | VArr (items : list value)
  | VObj (props : gmap string value).

(** The number value of a numeral in the safe range. *)
Notation "'VInt' n" := (VNum (SafeInt n I)) (at level 10, n at level 9).

(** What a [throw] carries in this program: the TypeError of a property
    read on [undefined] or [null] ([base] is the value read from, [prop]
    the property), the TypeError of an object that cannot be converted to
    a string, or the reason the request's promise rejected with. *)
Inductive thrown : Type :=
  | TypeError (base : value) (prop : string)
  | NotPrimitive (v : value)
  | Rejection (reason : value).

Inductive completion (A : Type) : Type :=
  | Normal (a : A)
  | Throw (e : thrown).
Arguments Normal {A} a.
Arguments Throw {A} e.

(** How a promise settles. *)
Inductive outcome : Type :=
  | Fulfilled (v : value)
  | Rejected (reason : value).

(** The double-quote character and the one-character string of it. *)
Definition dquote_char : Ascii.ascii := Ascii.ascii_of_nat 34.
Definition dquote : string := String dquote_char EmptyString.

(** [v.k]: a TypeError on [undefined] and [null]; the own property of an
    object, [undefined] when it has none of that name; [undefined] on the
    other values (exact for the names this program reads: [data], [slip],
    [id], [advice]). *)
Definition get_prop (v : value) (k : string) : completion value :=
  match v with
  | VUndefined | VNull => Throw (TypeError v k)
  | VObj props => Normal (default VUndefined (props !! k))
  | _ => Normal VUndefined
  end.

Definition join_with (sep : string) (l : list string) : string :=
  match l with
  | [] => EmptyString
  | s :: rest => fold_left (fun acc t => acc ++ sep ++ t) rest s
  end.

(** ToString of a boolean and of a number. *)
Definition bool_to_string (b : bool) : string :=
  if b then "true" else "false".

Definition number_to_string (n : safe_int) : string := pretty (int_val n).

(** The strings of a list of completions, or the first throw among
    them. *)
Fixpoint all_normal (l : list (completion string)) : completion (list string) :=
  match l with
  | [] => Normal []
  | Normal s :: rest =>
      match all_normal rest with
      | Normal ss => Normal (s :: ss)
      | Throw e => Throw e
      end
  | Throw e :: _ => Throw e
  end.

(** ToString, as a template literal applies it to an interpolated
    value.  An array joins the strings of its elements with commas, with
    nothing for [undefined] and [null].  An object is [[object Object]]
    by the [toString] it inherits; with a property [toString] of its own,
    which in a JSON value is no function, the conversion finds nothing to
    call that gives a primitive and throws a TypeError. *)
Fixpoint to_string (v : value) : completion string :=
  match v with
  | VUndefined => Normal "undefined"
  | VNull => Normal "null"
  | VBool b => Normal (bool_to_string b)
  | VNum n => Normal (number_to_string n)
  | VStr s => Normal s
  | VArr items =>
      match all_normal
              (map (fun x => match x with
                             | VUndefined | VNull => Normal EmptyString
                             | _ => to_string x
                             end) items) with
      | Normal ss => Normal (join_with "," ss)
      | Throw e => Throw e
      end
  | VObj props =>
      match props !! "toString" with
      | None => Normal "[object Object]"
      | Some _ => Throw (NotPrimitive v)
      end
  end.

End Js.
Import Js.

(** ** The world a handler runs in *)

Inductive effect : Type :=
  | HttpGet (url : string)
  | ConsoleLog (arg : value)
  | ConsoleLogError (e : thrown)
  | Alert (e : thrown).

(** The state of the store: the two fields [advice] and [nAdvice]. *)
Record Store : Type := mkStore { advice : value; nAdvice : value }.

(** The store, the promises of the requests in flight (oldest first), the
    next fresh promise, and what the program did to the outside so far
    (oldest first). *)
Record World : Type := mkWorld {
  store : Store;
  inflight : list nat;
  next_promise : nat;
  effects : list effect
}.

Definition M (A : Type) : Type := World -> completion A * World.

Definition ret {A} (a : A) : M A := fun w => (Normal a, w).

Definition bind {A B} (m : M A) (k : A -> M B) : M B :=
  fun w =>
    match m w with
    | (Normal a, w') => k a w'
    | (Throw e, w') => (Throw e, w')
    end.

Definition throw {A} (e : thrown) : M A := fun w => (Throw e, w).

(** [try { body } catch (error) { handler }] *)
Definition try_catch {A} (body : M A) (handler : thrown -> M A) : M A :=
  fun w =>
    match body w with
    | (Normal a, w') => (Normal a, w')
    | (Throw e, w') => handler e w'
    end.

Definition lift {A} (c : completion A) : M A := fun w => (c, w).

Declare Scope js_scope.
Delimit Scope js_scope with js.
Notation "'let*' x := m 'in' k" := (bind m (fun x => k))
  (at level 10, x name, m at level 100, k at level 200) : js_scope.
Notation "m ;; k" := (bind m (fun _ => k))
  (at level 100, k at level 200, right associativity) : js_scope.
Open Scope js_scope.

Definition emit (e : effect) : M unit :=
  fun w => (Normal tt,
            mkWorld (store w) (inflight w) (next_promise w) (effects w ++ [e])).

Definition console_log (arg : value) : M unit := emit (ConsoleLog arg).
Definition console_log_error (e : thrown) : M unit := emit (ConsoleLogError e).
Definition alert (e : thrown) : M unit := emit (Alert e).

(** [axios.get(url)]: sends the request and returns its promise, which
    is now in flight. *)
Definition axios_get (url : string) : M nat :=
  fun w =>
    let p := next_promise w in
    (Normal p,
     mkWorld (store w) (inflight w ++ [p]) (S p) (effects w ++ [HttpGet url])).

(** [await p] seen from the job that runs when [p] has settled: the
    fulfilment value, or a throw of the rejection reason. *)
Definition await (o : outcome) : M value :=
  match o with
  | Fulfilled v => ret v
  | Rejected reason => throw (Rejection reason)
  end.

(** [this.advice = v] and [this.nAdvice = v] *)
Definition set_advice (v : value) : M unit :=
  fun w => (Normal tt,
            mkWorld (mkStore v (nAdvice (store w)))
                    (inflight w) (next_promise w) (effects w)).

Definition set_nAdvice (v : value) : M unit :=
  fun w => (Normal tt,
            mkWorld (mkStore (advice (store w)) v)
                    (inflight w) (next_promise w) (effects w)).

(** ** The store [userAdviceStore] *)

Module userAdviceStore.

(** [state: () => ({ advice, nAdvice })] with both fields the empty
    string. *)
Definition state : Store := mkStore (VStr EmptyString) (VStr EmptyString).

Definition advice_url : string := "https://api.adviceslip.com/advice".

(** [fetchAdvice] up to its [await]: the request is sent.  ([axios.get]
    hands back a promise and does not throw, so the enclosing [try] has
    nothing to catch here.) *)
Definition fetchAdvice : M nat := axios_get advice_url.

(** The [try] block from the [await] on.  [const { id, advice } = slip]
    reads [slip.id] and [slip.advice], and is a TypeError when [slip] is
    [undefined] or [null], as each of the two reads is. *)
Definition fetchAdvice_try (o : outcome) : M unit :=
  let* data := await o in
  let* body := lift (get_prop data "data") in
  let* slip := lift (get_prop body "slip") in
  let* id := lift (get_prop slip "id") in
  let* advice := lift (get_prop slip "advice") in
  console_log slip ;;
  set_advice advice ;;
  set_nAdvice id.

(** The [catch] block. *)
Definition fetchAdvice_catch (error : thrown) : M unit :=
  alert error ;;
  console_log_error error.

(** [fetchAdvice] from its [await] on, run when the request's promise
    has settled with [o]. *)
Definition fetchAdvice_resume (o : outcome) : M unit :=
  try_catch (fetchAdvice_try o) fetchAdvice_catch.

(** [getAdvice: (state) => `"${state.advice}"`]: the template literal
    converts the field to a string, which can throw, and puts it between
    the two double quotes. *)
Definition getAdvice (state : Store) : completion string :=
  match to_string (advice state) with
  | Normal s => Normal (dquote ++ s ++ dquote)
  | Throw e => Throw e
  end.

(** [getIdAdvice: (state) => `advice #${state.nAdvice}`] *)
Definition getIdAdvice (state : Store) : completion string :=
  match to_string (nAdvice state) with
  | Normal s => Normal ("advice #" ++ s)
  | Throw e => Throw e
  end.

End userAdviceStore.

(** ** The component [App.vue] *)

Module App.

(** What a [{{ }}] interpolation puts on the page (Vue's
    toDisplayString): a string as it is, nothing for [undefined] and
    [null], the JSON text of an array or object (kept symbolic), and
    the string form of a boolean or number. *)
Inductive display : Type :=
  | Text (s : string)
  | JsonOf (v : value).

Definition toDisplayString (v : value) : display :=
  match v with
  | VStr s => Text s
  | VUndefined | VNull => Text EmptyString
  | VArr _ | VObj _ => JsonOf v
  | VBool b => Text (bool_to_string b)
  | VNum n => Text (number_to_string n)
  end.

(** [...mapState(userAdviceStore, ["advice", "nAdvice"])]: the computed
    properties [advice] and [nAdvice] read the store's properties of the
    same names. *)
Definition computed_advice (s : Store) : value := advice s.
Definition computed_nAdvice (s : Store) : value := nAdvice s.

(** [...mapActions(userAdviceStore, ["fetchAdvice", "reloadAdvice"])]
    makes [this.fetchAdvice] the store's action ([reloadAdvice] names no
    action of the store and is called nowhere).

    [newAdvice() { this.fetchAdvice(); console.log("generate advice"); }] *)
Definition newAdvice : M unit :=
  userAdviceStore.fetchAdvice ;;
  console_log (VStr "generate advice").

(** [mounted() { this.fetchAdvice(); }] *)
Definition mounted : M unit :=
  userAdviceStore.fetchAdvice ;;
  ret tt.

(** What [this] is where the template's click handler runs.  Vue calls
    a render function compiled on its own with the component as [this],
    as in development.  A production build of a component with
    [<script setup>] compiles the template into a function inside
    [setup()], where [this] is [undefined]. *)
Inductive this_binding : Type :=
  | ThisComponent
  | ThisUndefined.

(** [@click="this.newAdvice()"]: the read of [newAdvice] from [this],
    a TypeError when [this] is [undefined], and the call of the
    method. *)
Definition on_click (this : this_binding) : M unit :=
  match this with
  | ThisComponent => newAdvice
  | ThisUndefined => throw (TypeError VUndefined "newAdvice")
  end.

(** The template: [<h4>{{ nAdvice }}</h4>] and [<h1>{{ advice }}</h1>]. *)
Record page : Type := mkPage { h4 : display; h1 : display }.

Definition template (s : Store) : page :=
  mkPage (toDisplayString (computed_nAdvice s))
         (toDisplayString (computed_advice s)).

End App.

(** ** The event loop *)

Inductive event : Type :=
  | Mount
  | Click (this : App.this_binding)
  | Settle (p : nat) (o : outcome).

(** Takes promise [p] out of the requests in flight. *)
Definition settled (p : nat) (w : World) : World :=
  mkWorld (store w) (filter (fun q => q <> p) (inflight w))
          (next_promise w) (effects w).

(** One job.  Mounting runs [mounted], a click on the control runs
    [@click="this.newAdvice()"] with the [this] of the compiled template,
    and the settling of a request in flight runs the rest of the
    [fetchAdvice] call that awaits it.  What a handler throws ends the
    job and goes to Vue's error handler, which is not part of the
    program.  A promise settles once: a [Settle] of a promise that is
    not in flight is no job. *)
Definition handle (ev : event) (w : World) : World :=
  match ev with
  | Mount => snd (App.mounted w)
  | Click this => snd (App.on_click this w)
  | Settle p o =>
      if decide (p ∈ inflight w)
      then snd (userAdviceStore.fetchAdvice_resume o (settled p w))
      else w
  end.

Definition run (evs : list event) (w : World) : World :=
  fold_left (fun w ev => handle ev w) evs w.

Definition init_world : World := mkWorld userAdviceStore.state [] 0%nat [].

(** Pinia evaluates a getter, and Vue the template, on the store's
    state. *)
Definition read_getter {A} (g : Store -> completion A) : M A :=
  fun w => (g (store w), w).

Definition render : M App.page :=
  fun w => (Normal (App.template (store w)), w).

(** ** Vocabulary of the properties *)

(** The record a response carries, following the response shape
    [{ slip: { id, advice } }] of the endpoint inside the [data] of the
    HTTP response: [Some] when [data.slip] can be read and its fields
    taken, with [slip.advice] and [slip.id] as they are. *)
Definition fetched_record (resp : value) : option Store :=
  match get_prop resp "data" with
  | Normal body =>
      match get_prop body "slip" with
      | Normal slip =>
          match get_prop slip "id", get_prop slip "advice" with
          | Normal id, Normal adv => Some (mkStore adv id)
          | _, _ => None
          end
      | Throw _ => None
      end
  | Throw _ => None
  end.

(** What the view shows in [d] is what getter result [c] holds. *)
Definition shows (d : App.display) (c : completion string) : Prop :=
  match c with
  | Normal t => d = App.Text t
  | Throw _ => False
  end.

(** The record event [ev] brings when it is handled in [w]: that of the
    response, when [ev] settles a request in flight with one. *)
Definition brings (w : World) (ev : event) : option Store :=
  match ev with
  | Settle p (Fulfilled resp) =>
      if decide (p ∈ inflight w) then fetched_record resp else None
  | _ => None
  end.

(** The records brought during the run of [evs] from [w], oldest first. *)
Fixpoint records (evs : list event) (w : World) : list Store :=
  match evs with
  | [] => []
  | ev :: evs' => option_list (brings w ev) ++ records evs' (handle ev w)
  end.

Definition is_alert (e : effect) : bool :=
  match e with Alert _ => true | _ => false end.

Definition is_request (e : effect) : bool :=
  match e with HttpGet _ => true | _ => false end.

(** How many alerts were shown, and how many requests were sent. *)
Definition alerts (l : list effect) : nat := length (List.filter is_alert l).
Definition requests (l : list effect) : nat := length (List.filter is_request l).

(** The events whose handler reaches [fetchAdvice]. *)
Definition is_trigger (ev : event) : bool :=
  match ev with
  | Mount | Click App.ThisComponent => true
  | Click App.ThisUndefined | Settle _ _ => false
  end.

(** How many times the view was mounted, or the control clicked with
    the handler's [this] the component. *)
Definition triggers (evs : list event) : nat := length (List.filter is_trigger evs).

(** The response of the example: [{ slip: { id: 42, advice: "Be kind." } }]
    as the [data] of an HTTP response. *)
Definition slip42 : value :=
  VObj {[ "id" := VInt 42; "advice" := VStr "Be kind." ]}.
Definition body42 : value := VObj {[ "slip" := slip42 ]}.
Definition resp42 : value := VObj {[ "data" := body42 ]}.

(** A second response, and one without a [slip]. *)
Definition resp7 : value :=
  VObj {[ "data" :=
    VObj {[ "slip" := VObj {[ "id" := VInt 7; "advice" := VStr "Rest." ]} ]} ]}.
Definition resp_no_slip : value := VObj {[ "data" := VObj ∅ ]}.

(** The world after the view was mounted, the control clicked once, and
    the first of the two requests answered with [resp42]. *)
Definition world_after_42 : World :=
  run [Mount; Click App.ThisComponent; Settle 0 (Fulfilled resp42)] init_world.

(** ** Vocabulary of the further properties *)

Definition is_nullish (v : value) : bool :=
  match v with VUndefined | VNull => true | _ => false end.

(** [v?.k]: the read of [k] that gives [undefined] where [v.k] throws. *)
Definition opt_prop (v : value) (k : string) : value :=
  match get_prop v k with Normal x => x | Throw _ => VUndefined end.

(** [response?.data?.slip] of a fulfilled request, [undefined] of a
    rejected one. *)
Definition outcome_slip (o : outcome) : value :=
  match o with
  | Fulfilled resp => opt_prop (opt_prop resp "data") "slip"
  | Rejected _ => VUndefined
  end.


(** An effect that, when it is a request, goes to the advice endpoint. *)
Definition to_advice_url (e : effect) : Prop :=
  match e with
  | HttpGet url => url = userAdviceStore.advice_url
  | _ => True
  end.



(** A response whose slip is an object without fields. *)
Definition resp_empty_slip : value :=
  VObj {[ "data" := VObj {[ "slip" := VObj ∅ ]} ]}.

(** ** The monad's equations *)

Lemma bind_normal {A B} (m : M A) (k : A -> M B) w a w' :
  m w = (Normal a, w') -> bind m k w = k a w'.
Proof. intros H. unfold bind. rewrite H. reflexivity. Qed.

Lemma bind_throw {A B} (m : M A) (k : A -> M B) w e w' :
  m w = (Throw e, w') -> bind m k w = (Throw e, w').
Proof. intros H. unfold bind. rewrite H. reflexivity. Qed.

Lemma try_catch_normal {A} (body : M A) handler w a w' :
  body w = (Normal a, w') -> try_catch body handler w = (Normal a, w').
Proof. intros H. unfold try_catch. rewrite H. reflexivity. Qed.

Lemma try_catch_throw {A} (body : M A) handler w e w' :
  body w = (Throw e, w') -> try_catch body handler w = handler e w'.
Proof. intros H. unfold try_catch. rewrite H. reflexivity. Qed.

(** ** The [try] block *)

Import userAdviceStore.

(** With the four reads going through, the block logs the slip and
    writes both fields. *)
Lemma fetchAdvice_try_reads resp body slip id adv w :
  get_prop resp "data" = Normal body ->
  get_prop body "slip" = Normal slip ->
  get_prop slip "id" = Normal id ->
  get_prop slip "advice" = Normal adv ->
  fetchAdvice_try (Fulfilled resp) w =
    (Normal tt,
     mkWorld (mkStore adv id) (inflight w) (next_promise w)
             (effects w ++ [ConsoleLog slip])).
Proof.
  intros Hd Hs Hi Ha.
  unfold fetchAdvice_try, bind, lift, await, ret. simpl.
  rewrite Hd, Hs, Hi, Ha. reflexivity.
Qed.

Lemma fetched_record_Some resp r :
  fetched_record resp = Some r ->
  exists body slip,
    get_prop resp "data" = Normal body /\
    get_prop body "slip" = Normal slip /\
    get_prop slip "id" = Normal (nAdvice r) /\
    get_prop slip "advice" = Normal (advice r).
Proof.
  unfold fetched_record.
  destruct (get_prop resp "data") as [body|] eqn:Hd; [|discriminate].
  destruct (get_prop body "slip") as [slip|] eqn:Hs; [|discriminate].
  destruct (get_prop slip "id") as [id|] eqn:Hi; [|discriminate].
  destruct (get_prop slip "advice") as [adv|] eqn:Ha; [|discriminate].
  intros [= <-]. exists body, slip. auto.
Qed.

Lemma fetchAdvice_try_Some resp r w :
  fetched_record resp = Some r ->
  exists slip,
    fetchAdvice_try (Fulfilled resp) w =
      (Normal tt,
       mkWorld r (inflight w) (next_promise w)
               (effects w ++ [ConsoleLog slip])).
Proof.
  intros H. destruct (fetched_record_Some _ _ H) as (body & slip & Hd & Hs & Hi & Ha).
  exists slip. destruct r as [adv id]. simpl in *.
  eapply fetchAdvice_try_reads; eauto.
Qed.

(** A read of a second property of a value never throws when a read of a
    first one did not. *)
Lemma get_prop_normal_any v k k' x :
  get_prop v k = Normal x -> exists y, get_prop v k' = Normal y.
Proof. destruct v; simpl; intros H; try discriminate; eauto. Qed.

Lemma fetchAdvice_try_None resp w :
  fetched_record resp = None ->
  exists e, fetchAdvice_try (Fulfilled resp) w = (Throw e, w).
Proof.
  unfold fetched_record, fetchAdvice_try, bind, lift, await, ret. simpl.
  destruct (get_prop resp "data") as [body|e]; [|eauto].
  destruct (get_prop body "slip") as [slip|e]; [|eauto].
  destruct (get_prop slip "id") as [id|e] eqn:Hi; [|eauto].
  destruct (get_prop_normal_any _ _ "advice" _ Hi) as [adv Ha].
  rewrite Ha. discriminate.
Qed.

(** A throw of the block leaves the world as it was, and does not depend
    on the world. *)
Lemma fetchAdvice_try_throw o w e w' :
  fetchAdvice_try o w = (Throw e, w') ->
  w' = w /\ forall w0, fetchAdvice_try o w0 = (Throw e, w0).
Proof.
  destruct o as [resp|reason].
  - destruct (fetched_record resp) as [r|] eqn:Hr.
    + destruct (fetchAdvice_try_Some _ _ w Hr) as [slip ->]. discriminate.
    + revert Hr.
      unfold fetched_record, fetchAdvice_try, bind, lift, await, ret. simpl.
      destruct (get_prop resp "data") as [body|e1];
        [|intros _ [= <- <-]; auto].
      destruct (get_prop body "slip") as [slip|e1];
        [|intros _ [= <- <-]; auto].
      destruct (get_prop slip "id") as [id|e1] eqn:Hi;
        [|intros _ [= <- <-]; auto].
      destruct (get_prop_normal_any _ _ "advice" _ Hi) as [adv Ha].
      rewrite Ha. discriminate.
  - unfold fetchAdvice_try, bind, await, throw. simpl.
    intros [= <- <-]. auto.
Qed.

Lemma fetchAdvice_catch_eq e w :
  fetchAdvice_catch e w =
    (Normal tt,
     mkWorld (store w) (inflight w) (next_promise w)
             (effects w ++ [Alert e; ConsoleLogError e])).
Proof.
  unfold fetchAdvice_catch, bind, alert, console_log_error, emit. simpl.
  rewrite <- app_assoc. reflexivity.
Qed.

(** ** The rest of [fetchAdvice] after its [await] *)

Lemma fetchAdvice_resume_Some resp r w :
  fetched_record resp = Some r ->
  exists slip,
    fetchAdvice_resume (Fulfilled resp) w =
      (Normal tt,
       mkWorld r (inflight w) (next_promise w)
               (effects w ++ [ConsoleLog slip])).
Proof.
  intros H. destruct (fetchAdvice_try_Some _ _ w H) as [slip Ht].
  exists slip. unfold fetchAdvice_resume.
  erewrite try_catch_normal by exact Ht. reflexivity.
Qed.

Lemma fetchAdvice_resume_throw o e w w' :
  fetchAdvice_try o w = (Throw e, w') ->
  fetchAdvice_resume o w =
    (Normal tt,
     mkWorld (store w) (inflight w) (next_promise w)
             (effects w ++ [Alert e; ConsoleLogError e])).
Proof.
  intros Ht. destruct (fetchAdvice_try_throw _ _ _ _ Ht) as [-> _].
  unfold fetchAdvice_resume.
  erewrite try_catch_throw by exact Ht. apply fetchAdvice_catch_eq.
Qed.

(** The two ways the rest of the call can go. *)
Lemma fetchAdvice_resume_cases o w :
  (exists resp r slip,
      o = Fulfilled resp /\ fetched_record resp = Some r /\
      fetchAdvice_resume o w =
        (Normal tt,
         mkWorld r (inflight w) (next_promise w)
                 (effects w ++ [ConsoleLog slip])))
  \/
  (exists e,
      fetchAdvice_try o w = (Throw e, w) /\
      match o with
      | Fulfilled resp => fetched_record resp = None
      | Rejected _ => True
      end /\
      fetchAdvice_resume o w =
        (Normal tt,
         mkWorld (store w) (inflight w) (next_promise w)
                 (effects w ++ [Alert e; ConsoleLogError e]))).
Proof.
  destruct o as [resp|reason].
  - destruct (fetched_record resp) as [r|] eqn:Hr.
    + left. destruct (fetchAdvice_resume_Some _ _ w Hr) as [slip Hs]. eauto 10.
    + right. destruct (fetchAdvice_try_None _ w Hr) as [e He].
      exists e. split; [exact He|]. split; [reflexivity|].
      eapply fetchAdvice_resume_throw; exact He.
  - right. exists (Rejection reason).
    assert (Ht : fetchAdvice_try (Rejected reason) w = (Throw (Rejection reason), w))
      by reflexivity.
    split; [exact Ht|]. split; [exact I|].
    eapply fetchAdvice_resume_throw; exact Ht.
Qed.

(** ** One job of the event loop *)

Lemma handle_settle p o w :
  p ∈ inflight w ->
  handle (Settle p o) w = snd (fetchAdvice_resume o (settled p w)).
Proof. intros Hp. unfold handle. rewrite decide_True by exact Hp. reflexivity. Qed.

Lemma handle_settle_stale p o w :
  p ∉ inflight w -> handle (Settle p o) w = w.
Proof. intros Hp. unfold handle. rewrite decide_False by exact Hp. reflexivity. Qed.

Lemma handle_mount w :
  handle Mount w =
    mkWorld (store w) (inflight w ++ [next_promise w]) (S (next_promise w))
            (effects w ++ [HttpGet advice_url]).
Proof. reflexivity. Qed.

Lemma handle_click w :
  handle (Click App.ThisComponent) w =
    mkWorld (store w) (inflight w ++ [next_promise w]) (S (next_promise w))
            (effects w ++ [HttpGet advice_url; ConsoleLog (VStr "generate advice")]).
Proof.
  unfold handle, App.on_click, App.newAdvice, fetchAdvice, axios_get,
    console_log, emit, bind.
  simpl. rewrite <- app_assoc. reflexivity.
Qed.

Lemma handle_click_undefined w : handle (Click App.ThisUndefined) w = w.
Proof. reflexivity. Qed.

(** A job leaves in the store the record its event brings, and the
    store as it was when the event brings none. *)
Lemma store_handle ev w :
  store (handle ev w) = default (store w) (brings w ev).
Proof.
  destruct ev as [|[|]|p o].
  - reflexivity.
  - rewrite handle_click. reflexivity.
  - reflexivity.
  - unfold brings. destruct (decide (p ∈ inflight w)) as [Hp|Hp].
    + rewrite handle_settle by exact Hp.
      destruct (fetchAdvice_resume_cases o (settled p w))
        as [(resp & r & slip & -> & Hr & ->)|(e & _ & Hn & ->)].
      * rewrite Hr. reflexivity.
      * destruct o as [resp|reason]; [rewrite Hn|]; reflexivity.
    + rewrite handle_settle_stale by exact Hp.
      destruct o; reflexivity.
Qed.

Lemma run_cons ev evs w : run (ev :: evs) w = run evs (handle ev w).
Proof. reflexivity. Qed.

Lemma run_app evs1 evs2 w : run (evs1 ++ evs2) w = run evs2 (run evs1 w).
Proof. unfold run. apply fold_left_app. Qed.

(** After a run the store holds the record brought last, and is as it
    was when none was brought. *)
Lemma store_run evs : forall w,
  store (run evs w) = default (store w) (last (records evs w)).
Proof.
  induction evs as [|ev evs IH]; intros w.
  - reflexivity.
  - rewrite run_cons, IH. simpl records. rewrite last_app, store_handle.
    destruct (last (records evs (handle ev w))) as [r|]; [reflexivity|].
    destruct (brings w ev); reflexivity.
Qed.

(** Every record brought during a run is that of a response some
    [Settle] of the run carries. *)
Lemma records_from_responses evs : forall w r,
  r ∈ records evs w ->
  exists p resp,
    Settle p (Fulfilled resp) ∈ evs /\ fetched_record resp = Some r.
Proof.
  induction evs as [|ev evs IH]; intros w r; simpl.
  - intros H. inversion H.
  - rewrite elem_of_app. intros [H|H].
    + destruct ev as [|this|p [resp|reason]]; simpl in H; try (inversion H; fail).
      destruct (decide (p ∈ inflight w)); [|inversion H].
      destruct (fetched_record resp) as [r'|] eqn:Hr; simpl in H; [|inversion H].
      apply list_elem_of_singleton in H. subst r'.
      exists p, resp. split; [left|exact Hr].
    + destruct (IH _ _ H) as (p & resp & Hin & Hr).
      exists p, resp. split; [right; exact Hin|exact Hr].
Qed.

Lemma records_no_settle evs :
  (forall p o, Settle p o ∉ evs) -> forall w, records evs w = [].
Proof.
  induction evs as [|ev evs IH]; intros Hno w; [reflexivity|].
  simpl. rewrite IH.
  - destruct ev as [|this|p o]; [reflexivity..|].
    exfalso. apply (Hno p o). left.
  - intros p o Hin. apply (Hno p o). right. exact Hin.
Qed.

Lemma string_length_app (s t : string) :
  String.length (s ++ t) = (String.length s + String.length t)%nat.
Proof. induction s as [|c s IH]; simpl; [reflexivity|]. rewrite IH. reflexivity. Qed.

Lemma requests_app l1 l2 : requests (l1 ++ l2) = (requests l1 + requests l2)%nat.
Proof. unfold requests. rewrite List.filter_app, length_app. reflexivity. Qed.

Lemma alerts_app l1 l2 : alerts (l1 ++ l2) = (alerts l1 + alerts l2)%nat.
Proof. unfold alerts. rewrite List.filter_app, length_app. reflexivity. Qed.

(** The settling of a request sends no request. *)
Lemma requests_handle_settle p o w :
  requests (effects (handle (Settle p o) w)) = requests (effects w).
Proof.
  destruct (decide (p ∈ inflight w)) as [Hp|Hp].
  - rewrite handle_settle by exact Hp.
    destruct (fetchAdvice_resume_cases o (settled p w))
      as [(resp & r & slip & _ & _ & ->)|(e & _ & _ & ->)];
      simpl; rewrite requests_app; unfold requests; simpl; lia.
  - rewrite handle_settle_stale by exact Hp. reflexivity.
Qed.

(** ** The properties *)

(** C1.  When a request in flight settles with the response
    [{ slip: { id: 42, advice: "Be kind." } }], then after that job
    [getAdvice] returns [Be kind.] between two double-quote characters,
    and [getIdAdvice] returns [advice #42], a label that contains [42]. *)
Theorem refresh_be_kind (w : World) (p : nat) (resp : value) :
  p ∈ inflight w ->
  get_prop resp "data" = Normal body42 ->
  let s := store (handle (Settle p (Fulfilled resp)) w) in
  getAdvice s = Normal (dquote ++ "Be kind." ++ dquote) /\
  getIdAdvice s = Normal "advice #42" /\
  exists pre post, getIdAdvice s = Normal (pre ++ "42" ++ post).
Proof.
  intros Hp Hd s.
  assert (Hs : s = mkStore (VStr "Be kind.") (VInt 42)).
  { unfold s. rewrite handle_settle by exact Hp.
    unfold fetchAdvice_resume.
    erewrite try_catch_normal
      by (apply (fetchAdvice_try_reads resp body42 slip42);
          [exact Hd|reflexivity..]).
    reflexivity. }
  rewrite Hs. split; [reflexivity|]. split; [reflexivity|].
  exists "advice #", EmptyString. reflexivity.
Qed.

Lemma refresh_be_kind_witness :
  0%nat ∈ inflight (handle Mount init_world) /\
  get_prop resp42 "data" = Normal body42 /\
  getAdvice (store (run [Mount; Settle 0 (Fulfilled resp42)] init_world)) =
    Normal (dquote ++ "Be kind." ++ dquote).
Proof.
  split; [left|]. split; [reflexivity|].
  apply (refresh_be_kind (handle Mount init_world) 0 resp42);
    [left|reflexivity].
Defined.

(** C3.  When a request in flight settles and the [try] block throws
    (the request was rejected, or the response has no slip to take the
    fields from), the job leaves both fields of the store as they were
    and shows exactly one alert, that of the error thrown, which it also
    logs. *)
Theorem failed_refresh_keeps_record (w : World) (p : nat) (o : outcome)
    (e : thrown) :
  p ∈ inflight w ->
  fst (fetchAdvice_try o w) = Throw e ->
  let w' := handle (Settle p o) w in
  advice (store w') = advice (store w) /\
  nAdvice (store w') = nAdvice (store w) /\
  effects w' = (effects w ++ [Alert e; ConsoleLogError e])%list /\
  alerts (effects w') = S (alerts (effects w)).
Proof.
  intros Hp Ht w'.
  destruct (fetchAdvice_try o w) as [c w1] eqn:Hc. simpl in Ht. subst c.
  destruct (fetchAdvice_try_throw _ _ _ _ Hc) as [_ Hany].
  unfold w'. rewrite handle_settle by exact Hp.
  erewrite fetchAdvice_resume_throw by apply Hany. simpl.
  repeat split. rewrite alerts_app. unfold alerts. simpl. lia.
Qed.

Lemma failed_refresh_keeps_record_witness :
  1%nat ∈ inflight world_after_42 /\
  fst (fetchAdvice_try (Fulfilled resp_no_slip) world_after_42) =
    Throw (TypeError VUndefined "id") /\
  advice (store (handle (Settle 1 (Fulfilled resp_no_slip)) world_after_42)) =
    VStr "Be kind." /\
  alerts (effects (handle (Settle 1 (Fulfilled resp_no_slip)) world_after_42)) =
    1%nat.
Proof.
  assert (Hp : 1%nat ∈ inflight world_after_42) by (vm_compute; left).
  assert (Ht : fst (fetchAdvice_try (Fulfilled resp_no_slip) world_after_42) =
               Throw (TypeError VUndefined "id")) by reflexivity.
  split; [exact Hp|]. split; [exact Ht|].
  destruct (failed_refresh_keeps_record world_after_42 1
              (Fulfilled resp_no_slip) _ Hp Ht) as (Ha & _ & _ & Hn).
  split; [rewrite Ha; reflexivity|rewrite Hn; reflexivity].
Defined.

(** C4.  As long as no request has settled (in the initial state, and
    after any mounts and clicks), [getAdvice] returns the string of two
    double-quote characters and [getIdAdvice] returns the prefix
    [advice #] followed by the empty string. *)
Theorem display_before_first_fetch (evs : list event) :
  (forall p o, Settle p o ∉ evs) ->
  let s := store (run evs init_world) in
  getAdvice s = Normal (dquote ++ dquote) /\
  String.length (dquote ++ dquote) = 2%nat /\
  getIdAdvice s = Normal ("advice #" ++ EmptyString) /\
  getIdAdvice s = Normal "advice #".
Proof.
  intros Hno s.
  assert (Hs : s = state).
  { unfold s. rewrite store_run, records_no_settle by exact Hno. reflexivity. }
  rewrite Hs. repeat split.
Qed.

Lemma display_before_first_fetch_witness :
  (forall p o, Settle p o ∉ [Mount; Click App.ThisComponent]) /\
  getAdvice (store (run [Mount; Click App.ThisComponent] init_world)) =
    Normal (dquote ++ dquote) /\
  getAdvice (store (run [] init_world)) = Normal (dquote ++ dquote).
Proof.
  assert (H2 : forall p o, Settle p o ∉ [Mount; Click App.ThisComponent]).
  { intros p o Hin. apply list_elem_of_In in Hin. simpl in Hin.
    destruct Hin as [Hin|[Hin|[]]]; discriminate Hin. }
  assert (H0 : forall p o, Settle p o ∉ @nil event).
  { intros p o Hin. inversion Hin. }
  split; [exact H2|].
  split.
  - apply (display_before_first_fetch [Mount; Click App.ThisComponent] H2).
  - apply (display_before_first_fetch [] H0).
Defined.

(** C9.  [fetchAdvice] never throws to its caller: the part up to the
    [await] returns the request's promise, and the part after it
    completes normally however the request settled and whatever the
    response holds: what the [try] block throws, the [catch] block
    handles. *)
Theorem fetchAdvice_never_throws (o : outcome) (w : World) :
  fst (fetchAdvice w) = Normal (next_promise w) /\
  fst (fetchAdvice_resume o w) = Normal tt.
Proof.
  split; [reflexivity|].
  destruct (fetchAdvice_resume_cases o w)
    as [(resp & r & slip & _ & _ & ->)|(e & _ & _ & ->)]; reflexivity.
Qed.

(** C5.  The store holds one record.  A job either leaves it as it was
    or replaces it whole by the record its event brings; so after any
    run from the initial world the two fields are those of the record
    brought last: the store is the initial one, or both its fields are
    the [advice] and the [id] of the slip of one and the same response
    of the run. *)
Theorem record_from_one_fetch (evs : list event) (w : World) (ev : event) :
  store (handle ev w) = default (store w) (brings w ev) /\
  store (run evs init_world) = default state (last (records evs init_world)) /\
  (store (run evs init_world) = state \/
   exists p resp,
     Settle p (Fulfilled resp) ∈ evs /\
     fetched_record resp = Some (store (run evs init_world))).
Proof.
  split; [apply store_handle|].
  pose proof (store_run evs init_world) as Hrun. simpl in Hrun.
  split; [exact Hrun|].
  rewrite Hrun.
  destruct (last (records evs init_world)) as [r|] eqn:Hl; [right|left; reflexivity].
  simpl. apply (records_from_responses evs init_world).
  apply last_Some_elem_of. exact Hl.
Qed.

(** C10.  [nAdvice] starts as the empty string, which is not the number
    [0].  The job of a request in flight that settles with a response
    whose slip can be read writes [slip.id] to it as it is.  So after any
    run from the initial world [nAdvice] is the empty string when no
    record was brought, and otherwise the [id] of the record brought
    last, which is what reading [data.slip.id] of a response of the run
    gives. *)
Theorem nAdvice_verbatim (evs : list event) :
  nAdvice state = VStr EmptyString /\
  nAdvice state <> VInt 0 /\
  (forall w p resp body slip id adv,
      p ∈ inflight w ->
      get_prop resp "data" = Normal body ->
      get_prop body "slip" = Normal slip ->
      get_prop slip "id" = Normal id ->
      get_prop slip "advice" = Normal adv ->
      nAdvice (store (handle (Settle p (Fulfilled resp)) w)) = id) /\
  match last (records evs init_world) with
  | None => nAdvice (store (run evs init_world)) = VStr EmptyString
  | Some r =>
      nAdvice (store (run evs init_world)) = nAdvice r /\
      exists p resp body slip,
        Settle p (Fulfilled resp) ∈ evs /\
        get_prop resp "data" = Normal body /\
        get_prop body "slip" = Normal slip /\
        get_prop slip "id" = Normal (nAdvice (store (run evs init_world)))
  end.
Proof.
  split; [reflexivity|]. split; [discriminate|]. split.
  - intros w p resp body slip id adv Hp Hd Hs Hi Ha.
    rewrite handle_settle by exact Hp. unfold fetchAdvice_resume.
    erewrite try_catch_normal
      by (eapply fetchAdvice_try_reads; [exact Hd|exact Hs|exact Hi|exact Ha]).
    reflexivity.
  - rewrite (store_run evs init_world).
    destruct (last (records evs init_world)) as [r|] eqn:Hl; [|reflexivity].
    simpl. split; [reflexivity|].
    apply last_Some_elem_of in Hl.
    destruct (records_from_responses _ _ _ Hl) as (p & resp & Hin & Hr).
    destruct (fetched_record_Some _ _ Hr) as (body & slip & Hd & Hs & Hi & _).
    exists p, resp, body, slip. auto.
Qed.

Lemma nAdvice_verbatim_witness :
  0%nat ∈ inflight (handle Mount init_world) /\
  get_prop resp42 "data" = Normal body42 /\
  get_prop body42 "slip" = Normal slip42 /\
  get_prop slip42 "id" = Normal (VInt 42) /\
  get_prop slip42 "advice" = Normal (VStr "Be kind.") /\
  nAdvice (store (handle (Settle 0 (Fulfilled resp42)) (handle Mount init_world))) =
    VInt 42.
Proof.
  assert (Hp : 0%nat ∈ inflight (handle Mount init_world)) by left.
  repeat (split; [first [exact Hp|reflexivity]|]).
  destruct (nAdvice_verbatim []) as (_ & _ & Hstep & _).
  apply (Hstep _ 0%nat resp42 body42 slip42 (VInt 42) (VStr "Be kind."));
    first [exact Hp|reflexivity].
Defined.

(** C7.  Two calls of [fetchAdvice] overlap (each started by a mount or
    by a click that reaches [newAdvice], the second before the first
    request settled).  When the
    first request settles, in whatever way, and then the second one with
    a response that carries a record, the store ends as that record, and
    the getters show it. *)
Theorem last_writer_wins (w : World) (ev1 ev2 : event) (o1 : outcome)
    (resp2 : value) (r2 : Store) :
  is_trigger ev1 = true ->
  is_trigger ev2 = true ->
  fetched_record resp2 = Some r2 ->
  let p1 := next_promise w in
  let p2 := S p1 in
  let w' := run [ev1; ev2; Settle p1 o1; Settle p2 (Fulfilled resp2)] w in
  store w' = r2 /\
  getAdvice (store w') = getAdvice r2 /\
  getIdAdvice (store w') = getIdAdvice r2.
Proof.
  intros H1 H2 Hr p1 p2 w'.
  assert (Hs : store w' = r2).
  { unfold w'.
    change (run [ev1; ev2; Settle p1 o1; Settle p2 (Fulfilled resp2)] w)
      with (handle (Settle p2 (Fulfilled resp2))
              (handle (Settle p1 o1) (handle ev2 (handle ev1 w)))).
    rewrite store_handle. unfold brings.
    rewrite decide_True, Hr; [reflexivity|].
    assert (Hin : p2 ∈ inflight (handle ev2 (handle ev1 w))).
    { destruct ev1 as [|[|]|]; try discriminate;
        destruct ev2 as [|[|]|]; try discriminate;
        rewrite ?handle_mount, ?handle_click; simpl;
        rewrite !elem_of_app; right; left. }
    destruct (decide (p1 ∈ inflight (handle ev2 (handle ev1 w)))) as [Hp|Hp].
    - rewrite handle_settle by exact Hp.
      destruct (fetchAdvice_resume_cases o1 (settled p1 (handle ev2 (handle ev1 w))))
        as [(resp & r & slip & _ & _ & ->)|(e & _ & _ & ->)];
        simpl; apply list_elem_of_filter; (split; [unfold p2; lia|exact Hin]).
    - rewrite handle_settle_stale by exact Hp. exact Hin. }
  rewrite Hs. auto.
Qed.

Lemma last_writer_wins_witness :
  is_trigger Mount = true /\
  is_trigger (Click App.ThisComponent) = true /\
  fetched_record resp7 = Some (mkStore (VStr "Rest.") (VInt 7)) /\
  store (run [Mount; Click App.ThisComponent;
              Settle 0 (Fulfilled resp42); Settle 1 (Fulfilled resp7)]
             init_world) = mkStore (VStr "Rest.") (VInt 7).
Proof.
  repeat (split; [reflexivity|]).
  apply (last_writer_wins init_world Mount (Click App.ThisComponent)
           (Fulfilled resp42) resp7);
    reflexivity.
Defined.

Lemma requests_handle ev w :
  requests (effects (handle ev w)) =
    (requests (effects w) + if is_trigger ev then 1 else 0)%nat.
Proof.
  destruct ev as [|[|]|p o].
  - rewrite handle_mount. simpl. rewrite requests_app. reflexivity.
  - rewrite handle_click. simpl. rewrite requests_app. reflexivity.
  - rewrite handle_click_undefined. simpl. lia.
  - rewrite requests_handle_settle. simpl. lia.
Qed.

(** Mounting the view calls [fetchAdvice] once, and so does a click on
    the control whose handler has the component as [this]: each sends
    exactly one request, whose promise is the one new request in flight,
    and over any run the requests sent are as many as the mounts and
    those clicks. *)
Lemma one_fetch_per_trigger (w : World) (evs : list event) :
  (requests (effects (handle (Click App.ThisComponent) w)) =
     S (requests (effects w)) /\
   inflight (handle (Click App.ThisComponent) w) =
     (inflight w ++ [next_promise w])%list /\
   handle (Click App.ThisComponent) w =
     snd (console_log (VStr "generate advice") (snd (fetchAdvice w)))) /\
  (requests (effects (handle Mount w)) = S (requests (effects w)) /\
   inflight (handle Mount w) = (inflight w ++ [next_promise w])%list /\
   handle Mount w = snd (fetchAdvice w)) /\
  requests (effects (run evs w)) = (requests (effects w) + triggers evs)%nat.
Proof.
  split; [|split].
  - rewrite requests_handle. simpl. split; [lia|]. split; reflexivity.
  - rewrite requests_handle. simpl. split; [lia|]. split; reflexivity.
  - revert w. induction evs as [|ev evs IH]; intros w.
    + unfold triggers. simpl. lia.
    + rewrite run_cons, IH, requests_handle. unfold triggers. simpl.
      destruct (is_trigger ev); simpl; lia.
Qed.

(** C6.  Mounting the view calls [fetchAdvice] once.  A click on the
    control does so only where the template's handler has the component
    as [this].  The component has [<script setup>], so its production
    build compiles the template into [setup()], where [this] is
    [undefined]: there [@click="this.newAdvice()"] throws the TypeError
    of reading [newAdvice] from [undefined], [fetchAdvice] is not
    called, no request is sent and the world stays as it was. *)
Theorem click_without_this_fetches_nothing (w : World) :
  fst (App.on_click App.ThisUndefined w) =
    Throw (TypeError VUndefined "newAdvice") /\
  handle (Click App.ThisUndefined) w = w /\
  requests (effects (handle (Click App.ThisUndefined) w)) =
    requests (effects w) /\
  inflight (handle (Click App.ThisUndefined) w) = inflight w /\
  requests (effects (handle (Click App.ThisComponent) w)) =
    S (requests (effects w)) /\
  requests (effects (handle Mount w)) = S (requests (effects w)).
Proof.
  split; [reflexivity|]. split; [reflexivity|].
  split; [reflexivity|]. split; [reflexivity|].
  rewrite !requests_handle. simpl. lia.
Qed.

(** C8.  Reading [getAdvice] or [getIdAdvice] and rendering the view
    leave the world, and so both fields of the store, as they are; so do
    the part of [fetchAdvice] up to its [await], a mount and a click.  A
    job changes the store only when it is the rest of a [fetchAdvice]
    call whose request settled with a response that carries a record,
    which the store then holds. *)
Theorem only_fetchAdvice_writes (w : World) (ev : event) :
  snd (read_getter getAdvice w) = w /\
  snd (read_getter getIdAdvice w) = w /\
  snd (render w) = w /\
  store (snd (fetchAdvice w)) = store w /\
  store (handle Mount w) = store w /\
  (forall this, store (handle (Click this) w) = store w) /\
  (store (handle ev w) = store w \/
   exists p resp,
     ev = Settle p (Fulfilled resp) /\ p ∈ inflight w /\
     fetched_record resp = Some (store (handle ev w))).
Proof.
  repeat (split; [reflexivity|]).
  split; [intros []; reflexivity|].
  rewrite store_handle.
  destruct ev as [|this|p [resp|reason]]; simpl; auto.
  destruct (decide (p ∈ inflight w)) as [Hp|Hp]; [|auto].
  destruct (fetched_record resp) as [r|] eqn:Hr; [|auto].
  right. exists p, resp. auto.
Qed.

(** What the template shows is never what the getters return: the text
    lacks the quotation marks and the label lacks the prefix. *)
Lemma template_never_getters (s : Store) :
  ~ shows (App.h1 (App.template s)) (getAdvice s) /\
  ~ shows (App.h4 (App.template s)) (getIdAdvice s).
Proof.
  unfold shows, App.template, App.computed_advice, App.computed_nAdvice,
    getAdvice, getIdAdvice, App.h1, App.h4.
  split.
  - destruct (advice s) as [| |b|n|x|items|props]; simpl;
      try (destruct (all_normal _); intros H; [discriminate H|exact H]);
      try (destruct (props !! "toString"); intros H; [exact H|discriminate H]);
      intros H; injection H as H; apply (f_equal String.length) in H;
      rewrite !string_length_app in H;
      change (String.length dquote) with 1%nat in H;
      change (String.length EmptyString) with 0%nat in H; lia.
  - destruct (nAdvice s) as [| |b|n|x|items|props]; simpl;
      try (destruct (all_normal _); intros H; [discriminate H|exact H]);
      try (destruct (props !! "toString"); intros H; [exact H|discriminate H]);
      intros H; injection H as H; apply (f_equal String.length) in H;
      rewrite !string_length_app in H;
      change (String.length "advice #") with 8%nat in H;
      change (String.length EmptyString) with 0%nat in H; lia.
Qed.

(** C2.  After a refresh that brought [{ id: 42, advice: "Be kind." }]
    the view shows [42] and [Be kind.], the store's fields as they are,
    while [getIdAdvice] returns [advice #42] and [getAdvice] returns
    [Be kind.] between double-quote characters: the view does not show
    what the getters return. *)
Theorem view_shows_fields_not_getters :
  let s := store (run [Mount; Settle 0 (Fulfilled resp42)] init_world) in
  App.template s = App.mkPage (App.Text "42") (App.Text "Be kind.") /\
  getIdAdvice s = Normal "advice #42" /\
  getAdvice s = Normal (dquote ++ "Be kind." ++ dquote) /\
  ~ shows (App.h4 (App.template s)) (getIdAdvice s) /\
  ~ shows (App.h1 (App.template s)) (getAdvice s).
Proof.
  intros s.
  assert (Hs : s = mkStore (VStr "Be kind.") (VInt 42)) by reflexivity.
  rewrite Hs. repeat split; discriminate.
Qed.

(** ** Further properties of the store and the view *)

(** *** What a settled request does, by the slip of its response *)

Lemma reads_of_slip resp :
  is_nullish (outcome_slip (Fulfilled resp)) = false ->
  exists body,
    get_prop resp "data" = Normal body /\
    get_prop body "slip" = Normal (outcome_slip (Fulfilled resp)) /\
    get_prop (outcome_slip (Fulfilled resp)) "id" =
      Normal (opt_prop (outcome_slip (Fulfilled resp)) "id") /\
    get_prop (outcome_slip (Fulfilled resp)) "advice" =
      Normal (opt_prop (outcome_slip (Fulfilled resp)) "advice").
Proof.
  unfold outcome_slip.
  destruct (get_prop resp "data") as [body|e] eqn:Hd.
  - replace (opt_prop resp "data") with body
      by (unfold opt_prop; rewrite Hd; reflexivity).
    destruct (get_prop body "slip") as [slip|e'] eqn:Hs.
    + replace (opt_prop body "slip") with slip
        by (unfold opt_prop; rewrite Hs; reflexivity).
      intros Hn. exists body. split; [reflexivity|]. split; [exact Hs|].
      unfold opt_prop. destruct slip; try discriminate Hn; split; reflexivity.
    + unfold opt_prop at 1. rewrite Hs. discriminate.
  - unfold opt_prop at 1 2. rewrite Hd. discriminate.
Qed.

Lemma nullish_no_record resp :
  is_nullish (outcome_slip (Fulfilled resp)) = true ->
  fetched_record resp = None.
Proof.
  unfold outcome_slip, opt_prop, fetched_record.
  destruct (get_prop resp "data") as [body|e]; [|reflexivity].
  destruct (get_prop body "slip") as [slip|e]; [|reflexivity].
  destruct slip; try discriminate; reflexivity.
Qed.

(** X2.  What the job of a settled request in flight does is decided by
    [response?.data?.slip].  When that is [undefined] or [null] (also for
    a rejected request) the store stays as it is and one alert is shown.
    For every other slip, even one that is no object, both fields are
    overwritten with [slip?.advice] and [slip?.id], the slip is logged
    and no alert is shown. *)
Theorem settle_by_slip (w : World) (p : nat) (o : outcome) :
  p ∈ inflight w ->
  let slip := outcome_slip o in
  let w' := handle (Settle p o) w in
  if is_nullish slip
  then store w' = store w /\ alerts (effects w') = S (alerts (effects w))
  else store w' = mkStore (opt_prop slip "advice") (opt_prop slip "id") /\
       effects w' = (effects w ++ [ConsoleLog slip])%list /\
       alerts (effects w') = alerts (effects w).
Proof.
  intros Hp slip w'. unfold w'. rewrite handle_settle by exact Hp.
  destruct (is_nullish slip) eqn:Hn.
  - destruct (fetchAdvice_resume_cases o (settled p w))
      as [(resp & r & sl & -> & Hr & _)|(e & _ & _ & ->)].
    + rewrite (nullish_no_record resp Hn) in Hr. discriminate Hr.
    + simpl. split; [reflexivity|].
      rewrite alerts_app. unfold alerts. simpl. lia.
  - destruct o as [resp|reason]; [|discriminate Hn].
    destruct (reads_of_slip resp Hn) as (body & Hd & Hs & Hi & Ha).
    unfold fetchAdvice_resume.
    erewrite try_catch_normal
      by (eapply fetchAdvice_try_reads; [exact Hd|exact Hs|exact Hi|exact Ha]).
    simpl. split; [reflexivity|]. split; [reflexivity|].
    rewrite alerts_app. unfold alerts. simpl. lia.
Qed.

Lemma settle_by_slip_witness :
  1%nat ∈ inflight world_after_42 /\
  store (handle (Settle 1 (Fulfilled (VObj {[ "data" := VObj {[ "slip" := VInt 5 ]} ]})))
                world_after_42) = mkStore VUndefined VUndefined /\
  store (handle (Settle 1 (Fulfilled (VStr "<html>"))) world_after_42) =
    mkStore (VStr "Be kind.") (VInt 42).
Proof.
  assert (Hp : 1%nat ∈ inflight world_after_42) by (vm_compute; left).
  split; [exact Hp|]. split.
  - exact (proj1 (settle_by_slip world_after_42 1
             (Fulfilled (VObj {[ "data" := VObj {[ "slip" := VInt 5 ]} ]})) Hp)).
  - exact (proj1 (settle_by_slip world_after_42 1 (Fulfilled (VStr "<html>")) Hp)).
Defined.

(** X1.  A slip that has neither [id] nor [advice] is no error: the job
    shows no alert and writes [undefined] to both fields.  The getters
    then return the word [undefined] (between double quotes, and after
    the prefix), while the view shows two empty headings. *)
Theorem slip_without_fields (w : World) (p : nat) (resp body slip : value) :
  p ∈ inflight w ->
  get_prop resp "data" = Normal body ->
  get_prop body "slip" = Normal slip ->
  get_prop slip "id" = Normal VUndefined ->
  get_prop slip "advice" = Normal VUndefined ->
  let w' := handle (Settle p (Fulfilled resp)) w in
  alerts (effects w') = alerts (effects w) /\
  store w' = mkStore VUndefined VUndefined /\
  getAdvice (store w') = Normal (dquote ++ "undefined" ++ dquote) /\
  getIdAdvice (store w') = Normal "advice #undefined" /\
  App.template (store w') =
    App.mkPage (App.Text EmptyString) (App.Text EmptyString).
Proof.
  intros Hp Hd Hs Hi Ha w'. unfold w'.
  rewrite handle_settle by exact Hp. unfold fetchAdvice_resume.
  erewrite try_catch_normal
    by (eapply fetchAdvice_try_reads; [exact Hd|exact Hs|exact Hi|exact Ha]).
  simpl. split; [|repeat split].
  rewrite alerts_app. unfold alerts. simpl. lia.
Qed.

Lemma slip_without_fields_witness :
  0%nat ∈ inflight (handle (Click App.ThisComponent) init_world) /\
  get_prop resp_empty_slip "data" = Normal (VObj {[ "slip" := VObj ∅ ]}) /\
  get_prop (VObj {[ "slip" := VObj ∅ ]}) "slip" = Normal (VObj ∅) /\
  get_prop (VObj ∅) "id" = Normal VUndefined /\
  get_prop (VObj ∅) "advice" = Normal VUndefined /\
  getIdAdvice (store (handle (Settle 0 (Fulfilled resp_empty_slip))
                             (handle (Click App.ThisComponent) init_world))) =
    Normal "advice #undefined".
Proof.
  assert (Hp : 0%nat ∈ inflight (handle (Click App.ThisComponent) init_world)) by (vm_compute; left).
  repeat (split; [first [exact Hp|reflexivity]|]).
  apply (slip_without_fields (handle (Click App.ThisComponent) init_world) 0 resp_empty_slip
           (VObj {[ "slip" := VObj ∅ ]}) (VObj ∅) Hp);
    reflexivity.
Defined.

(** *** Every request is accounted for *)



(** The rest of a call leaves the promises as they are. *)
Lemma fetchAdvice_resume_promises o w :
  inflight (snd (fetchAdvice_resume o w)) = inflight w /\
  next_promise (snd (fetchAdvice_resume o w)) = next_promise w.
Proof.
  destruct (fetchAdvice_resume_cases o w)
    as [(resp & r & slip & _ & _ & ->)|(e & _ & _ & ->)]; split; reflexivity.
Qed.







(** X4.  The answer to the older of two overlapping calls overwrites the
    answer to the newer one when it arrives later: with the second
    request settled first, in whatever way, and the first request then
    settled with a response that carries a record, the store ends as the
    first response's record. *)
Theorem stale_response_overwrites (w : World) (ev1 ev2 : event) (o2 : outcome)
    (resp1 : value) (r1 : Store) :
  is_trigger ev1 = true ->
  is_trigger ev2 = true ->
  fetched_record resp1 = Some r1 ->
  let p1 := next_promise w in
  let p2 := S p1 in
  store (run [ev1; ev2; Settle p2 o2; Settle p1 (Fulfilled resp1)] w) = r1.
Proof.
  intros H1 H2 Hr p1 p2.
  change (run [ev1; ev2; Settle p2 o2; Settle p1 (Fulfilled resp1)] w)
    with (handle (Settle p1 (Fulfilled resp1))
            (handle (Settle p2 o2) (handle ev2 (handle ev1 w)))).
  rewrite store_handle. unfold brings.
  rewrite decide_True, Hr; [reflexivity|].
  assert (Hin : p1 ∈ inflight (handle ev2 (handle ev1 w))).
  { destruct ev1 as [|[|]|]; try discriminate;
      destruct ev2 as [|[|]|]; try discriminate;
      rewrite ?handle_mount, ?handle_click; simpl;
      rewrite !elem_of_app; left; right; left. }
  destruct (decide (p2 ∈ inflight (handle ev2 (handle ev1 w)))) as [Hp|Hp].
  - rewrite handle_settle by exact Hp.
    destruct (fetchAdvice_resume_promises o2
                (settled p2 (handle ev2 (handle ev1 w)))) as [-> _].
    simpl. apply list_elem_of_filter. split; [unfold p2; lia|exact Hin].
  - rewrite handle_settle_stale by exact Hp. exact Hin.
Qed.

Lemma stale_response_overwrites_witness :
  is_trigger Mount = true /\
  is_trigger (Click App.ThisComponent) = true /\
  fetched_record resp42 = Some (mkStore (VStr "Be kind.") (VInt 42)) /\
  store (run [Mount; Click App.ThisComponent;
              Settle 1 (Fulfilled resp7); Settle 0 (Fulfilled resp42)]
             init_world) = mkStore (VStr "Be kind.") (VInt 42).
Proof.
  repeat (split; [reflexivity|]).
  apply (stale_response_overwrites init_world Mount (Click App.ThisComponent)
           (Fulfilled resp7) resp42);
    reflexivity.
Defined.

(** *** What goes out *)

Lemma to_advice_url_handle ev w :
  Forall to_advice_url (effects w) ->
  Forall to_advice_url (effects (handle ev w)).
Proof.
  intros Hw. destruct ev as [|[|]|p o].
  - rewrite handle_mount. simpl. apply Forall_app. split; [exact Hw|].
    apply Forall_singleton. reflexivity.
  - rewrite handle_click. simpl. apply Forall_app. split; [exact Hw|].
    repeat constructor.
  - rewrite handle_click_undefined. exact Hw.
  - destruct (decide (p ∈ inflight w)) as [Hp|Hp].
    + rewrite handle_settle by exact Hp.
      destruct (fetchAdvice_resume_cases o (settled p w))
        as [(resp & r & slip & _ & _ & ->)|(e & _ & _ & ->)];
        simpl; apply Forall_app; (split; [exact Hw|]); repeat constructor.
    + rewrite handle_settle_stale by exact Hp. exact Hw.
Qed.

(** X5.  The program requests nothing but the advice endpoint: after any
    run from the initial world every request sent went to
    [https://api.adviceslip.com/advice], whatever the responses held. *)
Theorem requests_only_to_advice_url (evs : list event) :
  Forall to_advice_url (effects (run evs init_world)).
Proof.
  assert (H : forall w, Forall to_advice_url (effects w) ->
                        Forall to_advice_url (effects (run evs w))).
  { induction evs as [|ev evs IH]; intros w Hw; [exact Hw|].
    rewrite run_cons. apply IH, to_advice_url_handle, Hw. }
  apply H. apply Forall_nil_2.
Qed.





(** *** The getters keep what they are given *)

Lemma string_app_inv_tail (u : string) : forall s t : string,
  s ++ u = t ++ u -> s = t.
Proof.
  induction s as [|a s IH]; intros [|b t] H.
  - reflexivity.
  - apply (f_equal String.length) in H.
    rewrite !string_length_app in H. simpl in H. lia.
  - apply (f_equal String.length) in H.
    rewrite !string_length_app in H. simpl in H. lia.
  - change (String a (s ++ u) = String b (t ++ u)) in H.
    injection H as -> H. rewrite (IH t H). reflexivity.
Qed.

Lemma safe_int_eq (n m : safe_int) : int_val n = int_val m -> n = m.
Proof.
  destruct n as [a Ha], m as [b Hb]. simpl. intros <-.
  f_equal. apply proof_irrel.
Qed.

Lemma getAdvice_inj s1 s2 :
  getAdvice s1 = getAdvice s2 -> to_string (advice s1) = to_string (advice s2).
Proof.
  unfold getAdvice.
  destruct (to_string (advice s1)) as [t1|e1],
           (to_string (advice s2)) as [t2|e2]; intros H; try discriminate H.
  - change (Normal (String dquote_char (t1 ++ dquote)) =
            Normal (String dquote_char (t2 ++ dquote))) in H.
    injection H as H. f_equal. apply (string_app_inv_tail dquote). exact H.
  - exact H.
Qed.

Lemma getIdAdvice_inj s1 s2 :
  getIdAdvice s1 = getIdAdvice s2 ->
  to_string (nAdvice s1) = to_string (nAdvice s2).
Proof.
  unfold getIdAdvice.
  destruct (to_string (nAdvice s1)) as [t1|e1],
           (to_string (nAdvice s2)) as [t2|e2]; intros H; try discriminate H.
  - simpl in H. injection H as H. f_equal. exact H.
  - exact H.
Qed.

(** X6.  The getters lose nothing of what they format.  Two states give
    the same quoted text (or the same throw) exactly when their texts
    have the same string form, and the same label exactly when their ids
    have; so two different advice strings are never quoted alike, and
    two different numeric ids never give the same label. *)
Theorem getters_injective (s1 s2 : Store) :
  (getAdvice s1 = getAdvice s2 <->
   to_string (advice s1) = to_string (advice s2)) /\
  (getIdAdvice s1 = getIdAdvice s2 <->
   to_string (nAdvice s1) = to_string (nAdvice s2)) /\
  (forall a b, advice s1 = VStr a -> advice s2 = VStr b ->
               getAdvice s1 = getAdvice s2 -> a = b) /\
  (forall n m, nAdvice s1 = VNum n -> nAdvice s2 = VNum m ->
               getIdAdvice s1 = getIdAdvice s2 -> n = m).
Proof.
  split; [|split; [|split]].
  - split; [apply getAdvice_inj|]. unfold getAdvice. intros ->. reflexivity.
  - split; [apply getIdAdvice_inj|]. unfold getIdAdvice. intros ->. reflexivity.
  - intros a b Ha Hb H. apply getAdvice_inj in H. rewrite Ha, Hb in H.
    injection H as H. exact H.
  - intros n m Hn Hm H. apply getIdAdvice_inj in H. rewrite Hn, Hm in H.
    injection H as H. apply safe_int_eq, (inj pretty). exact H.
Qed.

Lemma getters_injective_witness :
  nAdvice (mkStore (VStr "Be kind.") (VInt 42)) = VInt 42 /\
  nAdvice (mkStore (VStr "Rest.") (VInt 42)) = VInt 42 /\
  getIdAdvice (mkStore (VStr "Be kind.") (VInt 42)) =
    getIdAdvice (mkStore (VStr "Rest.") (VInt 42)) /\
  SafeInt 42 I = SafeInt 42 I.
Proof.
  repeat (split; [reflexivity|]).
  apply (proj2 (proj2 (proj2 (getters_injective
           (mkStore (VStr "Be kind.") (VInt 42))
           (mkStore (VStr "Rest.") (VInt 42))))) (SafeInt 42 I) (SafeInt 42 I));
    reflexivity.
Defined.

(** *** What the user sees *)

(** X8.  After a request in flight settles with a slip whose [advice] is
    a string and whose [id] is a safe integer, the view shows the id in
    decimal in its small heading and the advice as it is in its large
    one, while the getters hold the same two texts with the quotation
    marks and the prefix added. *)
Theorem view_after_refresh (w : World) (p : nat) (resp body slip : value)
    (n : safe_int) (a : string) :
  p ∈ inflight w ->
  get_prop resp "data" = Normal body ->
  get_prop body "slip" = Normal slip ->
  get_prop slip "id" = Normal (VNum n) ->
  get_prop slip "advice" = Normal (VStr a) ->
  let s := store (handle (Settle p (Fulfilled resp)) w) in
  App.template s = App.mkPage (App.Text (pretty (int_val n))) (App.Text a) /\
  getAdvice s = Normal (dquote ++ a ++ dquote) /\
  getIdAdvice s = Normal ("advice #" ++ pretty (int_val n)).
Proof.
  intros Hp Hd Hs Hi Ha s. unfold s.
  rewrite handle_settle by exact Hp. unfold fetchAdvice_resume.
  erewrite try_catch_normal
    by (eapply fetchAdvice_try_reads; [exact Hd|exact Hs|exact Hi|exact Ha]).
  repeat split.
Qed.

Lemma view_after_refresh_witness :
  0%nat ∈ inflight (handle Mount init_world) /\
  get_prop resp42 "data" = Normal body42 /\
  get_prop body42 "slip" = Normal slip42 /\
  get_prop slip42 "id" = Normal (VInt 42) /\
  get_prop slip42 "advice" = Normal (VStr "Be kind.") /\
  App.template (store (handle (Settle 0 (Fulfilled resp42)) (handle Mount init_world))) =
    App.mkPage (App.Text "42") (App.Text "Be kind.").
Proof.
  assert (Hp : 0%nat ∈ inflight (handle Mount init_world)) by left.
  repeat (split; [first [exact Hp|reflexivity]|]).
  apply (view_after_refresh (handle Mount init_world) 0 resp42 body42 slip42
           (SafeInt 42 I) "Be kind." Hp); reflexivity.
Defined.

Lemma records_all_failed evs :
  (forall p o, Settle p o ∈ evs -> is_nullish (outcome_slip o) = true) ->
  forall w, records evs w = [].
Proof.
  induction evs as [|ev evs IH]; intros Hall w; [reflexivity|].
  simpl. rewrite IH by (intros p o Hin; apply (Hall p o); right; exact Hin).
  destruct ev as [|this|p [resp|reason]]; try reflexivity.
  simpl. destruct (decide (p ∈ inflight w)); [|reflexivity].
  rewrite nullish_no_record; [reflexivity|].
  apply (Hall p (Fulfilled resp)). left.
Qed.

(** X9.  Mounts, clicks and failed refreshes never change what is
    displayed: after a run, from any world, in which every settled
    request was rejected or had no slip, the store is as before, and so
    are the view and both getters. *)
Theorem display_survives_failures (w : World) (evs : list event) :
  (forall p o, Settle p o ∈ evs -> is_nullish (outcome_slip o) = true) ->
  store (run evs w) = store w /\
  App.template (store (run evs w)) = App.template (store w) /\
  getAdvice (store (run evs w)) = getAdvice (store w) /\
  getIdAdvice (store (run evs w)) = getIdAdvice (store w).
Proof.
  intros Hall.
  assert (Hs : store (run evs w) = store w).
  { rewrite store_run, records_all_failed by exact Hall. reflexivity. }
  rewrite Hs. repeat split.
Qed.

Lemma display_survives_failures_witness :
  (forall p o,
      Settle p o ∈ [Click App.ThisComponent; Settle 1 (Rejected VNull);
                    Settle 2 (Fulfilled resp_no_slip)] ->
      is_nullish (outcome_slip o) = true) /\
  store (run [Click App.ThisComponent; Settle 1 (Rejected VNull);
              Settle 2 (Fulfilled resp_no_slip)]
             world_after_42) = mkStore (VStr "Be kind.") (VInt 42).
Proof.
  assert (Hall : forall p o,
      Settle p o ∈ [Click App.ThisComponent; Settle 1 (Rejected VNull);
                    Settle 2 (Fulfilled resp_no_slip)] ->
      is_nullish (outcome_slip o) = true).
  { intros p o Hin. apply list_elem_of_In in Hin. simpl in Hin.
    destruct Hin as [Hin|[Hin|[Hin|[]]]]; [discriminate Hin| |];
      injection Hin as _ <-; reflexivity. }
  split; [exact Hall|].
  exact (proj1 (display_survives_failures world_after_42 _ Hall)).
Defined.
